(** * Ledger and governance core of the BockDAO node

    The repository ships only the HTTP tests of the node (src/testsprite_tests);
    the node itself (Hash Index, Token Ledger, Chain Store, Governance Engine,
    Query Facade) is not part of it.  Every operation below is therefore
    modelled from the specification of that core, section by section, and the
    tests' observable behaviour is checked against the model. *)

From Stdlib Require Import ZArith Lia Ascii String.
From stdpp Require Import base gmap list strings pretty.

Local Open Scope Z_scope.

(** ** Error taxonomy (spec section 7) *)
Inductive Error :=
  | InvalidFormat
  | NotFound
  | DuplicateKey
  | DuplicateTransaction
  | DuplicateVote
  | ChainForkRejected
  | InsufficientBalance
  | InvalidAmount
  | InvalidProposal
  | ProposalClosed.

#[global] Instance Error_eq_dec : EqDecision Error.
Proof. solve_decision. Defined.

(** Every fallible operation returns a result. *)
Inductive result (A : Type) :=
  | Ok (a : A)
  | Err (e : Error).
Arguments Ok {A} a.
Arguments Err {A} e.

Definition res_bind {A B} (m : result A) (k : A -> result B) : result B :=
  match m with
  | Ok a => k a
  | Err e => Err e
  end.

Notation "'let?' x := m 'in' k" := (res_bind m (fun x => k))
  (at level 200, x name, m at level 100, k at level 200).

(** ** Token Ledger (spec 4.2) *)
Module TokenLedger.

(** Account balances keyed by address. *)
Abbreviation balances := (gmap string Z).

(** [balanceOf(address)]: 0 for an address with no entry. *)
Definition balanceOf (L : balances) (a : string) : Z :=
  match L !! a with
  | Some v => v
  | None => 0
  end.

(** Modelled from the spec: [applyTransfer(from, to, amount)] of the Token
    Ledger (not in the repository).  It fails with [InvalidAmount] when
    amount <= 0 and with [InsufficientBalance] when from's balance is below
    amount, leaving the ledger as it was; otherwise it debits [from] and
    then credits [to]. *)
Definition applyTransfer (L : balances) (from to : string) (amount : Z)
    : result unit * balances :=
  if amount <=? 0 then (Err InvalidAmount, L)
  else if balanceOf L from <? amount then (Err InsufficientBalance, L)
  else
    let L1 := <[from := balanceOf L from - amount]> L in
    (Ok tt, <[to := balanceOf L1 to + amount]> L1).

(** A sequence of transfers, stopping at the first failure (whose ledger is
    then the one returned). *)
Fixpoint applyTransfers (L : balances) (ts : list (string * string * Z))
    : result unit * balances :=
  match ts with
  | [] => (Ok tt, L)
  | (f, t, a) :: rest =>
      match applyTransfer L f t a with
      | (Ok _, L') => applyTransfers L' rest
      | (Err e, L') => (Err e, L')
      end
  end.

(** Sum of all balances of the table. *)
Definition total (L : balances) : Z :=
  foldr Z.add 0 (map snd (map_to_list L)).

(** Every balance of the table is non-negative. *)
Definition nonneg (L : balances) : Prop :=
  map_Forall (fun _ v => 0 <= v) L.

End TokenLedger.

(** ** Governance Engine (spec 4.4) *)
Module Governance.
Import TokenLedger.

Inductive Choice := Yes | No.
Inductive Status := Open | Passed | Rejected | Expired.

#[global] Instance Status_eq_dec : EqDecision Status.
Proof. solve_decision. Defined.

Record Proposal := {
  id : string;
  title : string;
  description : string;
  proposal_type : string;
  voting_type : string;
  duration : Z;
  threshold : Z;
  status : Status;
  created_at : Z;
  votes : gmap string (Z * Choice)
}.

(** The body of a [POST /dao/proposal] request. *)
Record ProposalPayload := {
  pl_title : string;
  pl_description : string;
  pl_proposal_type : string;
  pl_voting_type : string;
  pl_duration : Z;
  pl_threshold : Z
}.

(** The proposals table, in creation order. *)
Abbreviation proposals := (list Proposal).

Definition set_votes (p : Proposal) (v : gmap string (Z * Choice)) : Proposal :=
  {| id := id p; title := title p; description := description p;
     proposal_type := proposal_type p; voting_type := voting_type p;
     duration := duration p; threshold := threshold p; status := status p;
     created_at := created_at p; votes := v |}.

Definition set_status (p : Proposal) (s : Status) : Proposal :=
  {| id := id p; title := title p; description := description p;
     proposal_type := proposal_type p; voting_type := voting_type p;
     duration := duration p; threshold := threshold p; status := s;
     created_at := created_at p; votes := votes p |}.

(** Modelled from the spec: the recognized proposal and voting types (the
    spec requires membership in "a recognized set"; the tests submit
    "general" and "token-based"). *)
Definition recognized_proposal_types : list string :=
  ["general"; "treasury"; "technical"; "parameter"].
Definition recognized_voting_types : list string :=
  ["simple"; "token-based"; "quadratic"].

Definition mem_string (s : string) (l : list string) : bool :=
  existsb (String.eqb s) l.

(** The id assigned to the [n]-th proposal created. *)
Definition proposal_id (n : nat) : string :=
  "proposal-" +:+ pretty (N.of_nat n).

(** [tally]: the summed weights of the yes and of the no votes. *)
Definition tally (p : Proposal) : Z * Z :=
  map_fold (fun _ (wc : Z * Choice) (acc : Z * Z) =>
    match wc, acc with
    | (w, Yes), (y, n) => (y + w, n)
    | (w, No), (y, n) => (y, n + w)
    end) (0, 0) (votes p).

(** Modelled from the spec: [evaluateStatus(proposal, now)], the lazy
    status evaluation.  Before the deadline an open proposal stays open;
    after it, the winning choice's weight is compared with threshold percent
    of the voting power cast: yes winning and meeting it passes, no winning
    and meeting it (or a tie) rejects, no vote or a winner below the
    threshold expires.  Terminal statuses never change. *)
Definition evaluateStatus (p : Proposal) (now : Z) : Status :=
  match status p with
  | Open =>
      if now <? created_at p + duration p then Open
      else
        let '(y, n) := tally p in
        if (n <? y) && (threshold p * (y + n) <=? 100 * y) then Passed
        else if (0 <? y + n) && (y <=? n)
                && ((y =? n) || (threshold p * (y + n) <=? 100 * n))
        then Rejected
        else Expired
  | s => s
  end.

(** Modelled from the spec: [createProposal(payload)].  Validates the
    payload, assigns a fresh id and appends an open proposal. *)
Definition createProposal (g : proposals) (pl : ProposalPayload) (now : Z)
    : result string * proposals :=
  if negb (String.eqb (pl_title pl) "")
     && negb (String.eqb (pl_description pl) "")
     && mem_string (pl_proposal_type pl) recognized_proposal_types
     && mem_string (pl_voting_type pl) recognized_voting_types
     && (0 <? pl_duration pl)
     && (0 <=? pl_threshold pl) && (pl_threshold pl <=? 100)
  then
    let pid := proposal_id (length g) in
    (Ok pid,
     g ++ [{| id := pid; title := pl_title pl; description := pl_description pl;
              proposal_type := pl_proposal_type pl;
              voting_type := pl_voting_type pl;
              duration := pl_duration pl; threshold := pl_threshold pl;
              status := Open; created_at := now; votes := ∅ |}])
  else (Err InvalidProposal, g).

(** [listProposals()]: every proposal in creation order, with its status
    evaluated at [now]. *)
Definition listProposals (g : proposals) (now : Z) : list Proposal :=
  map (fun p => set_status p (evaluateStatus p now)) g.

Fixpoint findProposal (g : proposals) (pid : string) : option Proposal :=
  match g with
  | [] => None
  | p :: rest => if String.eqb (id p) pid then Some p else findProposal rest pid
  end.

(** [getProposal(id)]. *)
Definition getProposal (g : proposals) (pid : string) : result Proposal :=
  match findProposal g pid with
  | Some p => Ok p
  | None => Err NotFound
  end.

Definition updateProposal (g : proposals) (pid : string)
    (f : Proposal -> Proposal) : proposals :=
  map (fun p => if String.eqb (id p) pid then f p else p) g.

(** Modelled from the spec: [castVote(proposalId, voter, choice)].  Fails
    with [NotFound], then [ProposalClosed] when the evaluated status is not
    open, then [DuplicateVote] when the voter has a vote record; otherwise
    records the vote with the voter's current balance as weight. *)
Definition castVote (g : proposals) (L : balances) (pid voter : string)
    (c : Choice) (now : Z) : result unit * proposals :=
  match findProposal g pid with
  | None => (Err NotFound, g)
  | Some p =>
      if decide (evaluateStatus p now <> Open) then (Err ProposalClosed, g)
      else match votes p !! voter with
           | Some _ => (Err DuplicateVote, g)
           | None =>
               (Ok tt, updateProposal g pid
                         (fun q => set_votes q (<[voter := (balanceOf L voter, c)]> (votes q))))
           end
  end.

(** Modelled from the spec: [applyTreasuryTransfer], the transfer whose
    source is the Treasury; it needs a proposal evaluated as passed. *)
Definition applyTreasuryTransfer (T : Z) (L : balances) (g : proposals)
    (pid to : string) (amount : Z) (now : Z) : result unit * (Z * balances) :=
  match findProposal g pid with
  | None => (Err NotFound, (T, L))
  | Some p =>
      if decide (evaluateStatus p now = Passed) then
        if amount <=? 0 then (Err InvalidAmount, (T, L))
        else if T <? amount then (Err InsufficientBalance, (T, L))
        else (Ok tt, (T - amount, <[to := balanceOf L to + amount]> L))
      else (Err InvalidProposal, (T, L))
  end.

End Governance.

(** ** Blocks and transactions (spec section 3) *)
Module Chain.
Import TokenLedger Governance.

Inductive TxKind :=
  | TkTransfer
  | TkProposalCreate (pl : ProposalPayload)
  | TkVote (pid : string) (choice : Choice)
  | TkTreasuryTransfer (pid : string).

Record Transaction := {
  tx_hash : string;
  kind : TxKind;
  from : string;
  to : string;
  amount : Z
}.

Record Block := {
  height : N;
  hash : string;
  parent_hash : option string;
  transactions : list Transaction;
  timestamp : Z
}.

(** The node's state: the Chain Store's blocks (tip last), the Hash Index's
    three maps, the Token Ledger, the Treasury and the proposals table. *)
Record State := {
  chain : list Block;
  by_hash : gmap string Block;
  by_height : gmap N Block;
  tx_index : gmap string Transaction;
  ledger : balances;
  treasury : Z;
  gov : proposals
}.

Definition set_tx_index (s : State) (m : gmap string Transaction) : State :=
  {| chain := chain s; by_hash := by_hash s; by_height := by_height s;
     tx_index := m; ledger := ledger s; treasury := treasury s; gov := gov s |}.
Definition set_ledger (s : State) (L : balances) : State :=
  {| chain := chain s; by_hash := by_hash s; by_height := by_height s;
     tx_index := tx_index s; ledger := L; treasury := treasury s; gov := gov s |}.
Definition set_treasury (s : State) (T : Z) (L : balances) : State :=
  {| chain := chain s; by_hash := by_hash s; by_height := by_height s;
     tx_index := tx_index s; ledger := L; treasury := T; gov := gov s |}.
Definition set_gov (s : State) (g : proposals) : State :=
  {| chain := chain s; by_hash := by_hash s; by_height := by_height s;
     tx_index := tx_index s; ledger := ledger s; treasury := treasury s; gov := g |}.

(** Modelled from the spec: validation and effect of one transaction of a
    block, on the scratch state of the block being applied.  Its hash must
    be new chain-wide (including the block's earlier transactions); then
    its kind's effect goes to the Token Ledger or the Governance Engine. *)
Definition apply_tx (now : Z) (s : State) (t : Transaction) : result State :=
  match tx_index s !! tx_hash t with
  | Some _ => Err DuplicateTransaction
  | None =>
      let s1 := set_tx_index s (<[tx_hash t := t]> (tx_index s)) in
      match kind t with
      | TkTransfer =>
          match applyTransfer (ledger s1) (from t) (to t) (amount t) with
          | (Ok _, L') => Ok (set_ledger s1 L')
          | (Err e, _) => Err e
          end
      | TkProposalCreate pl =>
          match createProposal (gov s1) pl now with
          | (Ok _, g') => Ok (set_gov s1 g')
          | (Err e, _) => Err e
          end
      | TkVote pid c =>
          match castVote (gov s1) (ledger s1) pid (from t) c now with
          | (Ok _, g') => Ok (set_gov s1 g')
          | (Err e, _) => Err e
          end
      | TkTreasuryTransfer pid =>
          match applyTreasuryTransfer (treasury s1) (ledger s1) (gov s1)
                  pid (to t) (amount t) now with
          | (Ok _, (T', L')) => Ok (set_treasury s1 T' L')
          | (Err e, _) => Err e
          end
      end
  end.

Fixpoint apply_txs (now : Z) (s : State) (ts : list Transaction) : result State :=
  match ts with
  | [] => Ok s
  | t :: rest => let? s1 := apply_tx now s t in apply_txs now s1 rest
  end.

(** The height the next block must have: the tip's plus one, 0 for the
    genesis block. *)
Definition expected_height (st : State) : N :=
  match last (chain st) with
  | Some tip => (height tip + 1)%N
  | None => 0%N
  end.

Definition expected_parent (st : State) : option string :=
  option_map hash (last (chain st)).

(** Modelled from the spec: [appendBlock(block)] of the Chain Store (spec
    4.3).  Height and parent are checked against the tip, the block's
    digest against the Hash Index, and every transaction is validated and
    applied in order on a scratch copy of the state; only when all succeed
    is the scratch state committed, with the block indexed by hash and
    height and appended as the new tip.  A rejected block returns the state
    it was given. *)
Definition appendBlock (st : State) (b : Block) : result unit * State :=
  if decide (height b = expected_height st /\ parent_hash b = expected_parent st)
  then
    match by_hash st !! hash b with
    | Some _ => (Err DuplicateKey, st)
    | None =>
        match apply_txs (timestamp b) st (transactions b) with
        | Ok s' =>
            (Ok tt,
             {| chain := chain s' ++ [b];
                by_hash := <[hash b := b]> (by_hash s');
                by_height := <[height b := b]> (by_height s');
                tx_index := tx_index s'; ledger := ledger s';
                treasury := treasury s'; gov := gov s' |})
        | Err e => (Err e, st)
        end
    end
  else (Err ChainForkRejected, st).

(** The state before the genesis block: the genesis allocation of tokens
    and the Treasury's initial funds, nothing else. *)
Definition init_state (alloc : balances) (t0 : Z) : State :=
  {| chain := []; by_hash := ∅; by_height := ∅; tx_index := ∅;
     ledger := alloc; treasury := t0; gov := [] |}.

(** The state-changing operations of the core: appending a block, and the
    direct governance writes [createProposal] and [castVote]. *)
Inductive step : State -> State -> Prop :=
  | step_append st b st' :
      appendBlock st b = (Ok tt, st') -> step st st'
  | step_create st pl now pid g' :
      createProposal (gov st) pl now = (Ok pid, g') -> step st (set_gov st g')
  | step_vote st pid voter c now g' :
      castVote (gov st) (ledger st) pid voter c now = (Ok tt, g') ->
      step st (set_gov st g').

Inductive reachable : State -> Prop :=
  | reach_init alloc t0 :
      nonneg alloc -> 0 <= t0 -> reachable (init_state alloc t0)
  | reach_step st st' : reachable st -> step st st' -> reachable st'.

End Chain.

(** ** Hash Index lookups and Query Facade (spec 4.1, 4.5) *)
Module Query.
Import TokenLedger Chain.

Definition is_digit_char (c : ascii) : bool :=
  let n := nat_of_ascii c in (48 <=? n)%nat && (n <=? 57)%nat.

Definition is_hex_char (c : ascii) : bool :=
  let n := nat_of_ascii c in
  is_digit_char c || ((97 <=? n)%nat && (n <=? 102)%nat)
                  || ((65 <=? n)%nat && (n <=? 70)%nat).

(** A well-formed digest: 64 hexadecimal characters. *)
Definition is_digest (s : string) : bool :=
  (String.length s =? 64)%nat && forallb is_hex_char (list_ascii_of_string s).

(** A well-formed non-negative integer: a non-empty string of decimal
    digits. *)
Definition is_height (s : string) : bool :=
  negb (String.eqb s "") && forallb is_digit_char (list_ascii_of_string s).

Definition height_of (s : string) : N :=
  fold_left (fun acc c => (acc * 10 + N.of_nat (nat_of_ascii c - 48))%N)
            (list_ascii_of_string s) 0%N.

(** The tagged union a [hashorid] is parsed into (spec section 9). *)
Inductive HashOrHeight :=
  | ByHash (h : string)
  | ByHeight (n : N).

Definition parse_hashorid (s : string) : option HashOrHeight :=
  if is_digest s then Some (ByHash s)
  else if is_height s then Some (ByHeight (height_of s))
  else None.

Definition opt_result {A} (o : option A) : result A :=
  match o with
  | Some a => Ok a
  | None => Err NotFound
  end.

(** Modelled from the spec: [getBlock(hashOrHeight)] ([GET /block/{hashorid}]). *)
Definition getBlock (st : State) (s : string) : result Block :=
  match parse_hashorid s with
  | None => Err InvalidFormat
  | Some (ByHash h) => opt_result (by_hash st !! h)
  | Some (ByHeight n) => opt_result (by_height st !! n)
  end.

(** Modelled from the spec: [getTransaction(hash)] ([GET /tx/{hash}]). *)
Definition getTransaction (st : State) (s : string) : result Transaction :=
  if is_digest s then opt_result (tx_index st !! s) else Err InvalidFormat.

(** Modelled from the spec: the Treasury balance query ([GET /dao/treasury]),
    which has no failure. *)
Definition treasuryBalance (st : State) : result Z := Ok (treasury st).

End Query.

(** ** The invariants of the state (spec section 3) *)
Module Invariants.
Import TokenLedger Governance Chain.

(** Heights are the 0-based positions in the chain, and each block's parent
    is the digest of the block before it (none for the genesis block). *)
Definition chain_ok (bs : list Block) : Prop :=
  forall i b, bs !! i = Some b ->
    height b = N.of_nat i /\
    parent_hash b = match i with
                    | O => None
                    | S j => option_map hash (bs !! j)
                    end.

(** The Hash Index agrees with the Chain Store: the by-height map is the
    chain itself, and every digest indexed is the digest of a stored block
    or of a transaction of a stored block. *)
Definition index_ok (st : State) : Prop :=
  (forall n, by_height st !! n = chain st !! N.to_nat n) /\
  (forall h b, by_hash st !! h = Some b -> hash b = h /\ b ∈ chain st) /\
  (forall h t, tx_index st !! h = Some t ->
     tx_hash t = h /\ exists b, b ∈ chain st /\ t ∈ transactions b).

(** The proposals carry the ids [proposal_id 0], [proposal_id 1], ... in
    creation order. *)
Definition gov_ok (g : proposals) : Prop :=
  map id g = map proposal_id (seq 0 (length g)).

Definition ledger_ok (st : State) : Prop :=
  nonneg (ledger st) /\ 0 <= treasury st /\ gov_ok (gov st).

End Invariants.

(** ** A concrete run of the node

    Alice holds 100 tokens at genesis and the Treasury 1000.  The genesis
    block moves 30 tokens to Bob and creates a proposal; block 1 carries
    Alice's yes vote; block 2, after the deadline, pays Bob 50 tokens out of
    the Treasury on the strength of the passed proposal. *)
Module Scenario.
Import TokenLedger Governance Chain.

Definition hex64 (c : ascii) : string := string_of_list_ascii (repeat c 64).

Definition pl0 : ProposalPayload :=
  {| pl_title := "Test Proposal - Governance API Validation";
     pl_description := "Proposal created for testing GET /dao/proposals endpoint";
     pl_proposal_type := "general"; pl_voting_type := "token-based";
     pl_duration := 3600; pl_threshold := 50 |}.

Definition alloc0 : balances := <["alice" := 100]> ∅.
Definition st0 : State := init_state alloc0 1000.

Definition b0 : Block :=
  {| height := 0; hash := hex64 "0"; parent_hash := None;
     transactions :=
       [ {| tx_hash := hex64 "1"; kind := TkTransfer;
            from := "alice"; to := "bob"; amount := 30 |};
         {| tx_hash := hex64 "2"; kind := TkProposalCreate pl0;
            from := "alice"; to := ""; amount := 0 |} ];
     timestamp := 0 |}.
Definition st1 : State := snd (appendBlock st0 b0).

Definition b1 : Block :=
  {| height := 1; hash := hex64 "3"; parent_hash := Some (hex64 "0");
     transactions :=
       [ {| tx_hash := hex64 "4"; kind := TkVote (proposal_id 0) Yes;
            from := "alice"; to := ""; amount := 0 |} ];
     timestamp := 10 |}.
Definition st2 : State := snd (appendBlock st1 b1).

(** The proposal as it stands after block 1: open, with Alice's vote of
    weight 70. *)
Definition prop0 : Proposal :=
  {| id := proposal_id 0; title := pl_title pl0; description := pl_description pl0;
     proposal_type := pl_proposal_type pl0; voting_type := pl_voting_type pl0;
     duration := pl_duration pl0; threshold := pl_threshold pl0;
     status := Open; created_at := 0; votes := <["alice" := (70, Yes)]> ∅ |}.

Definition tx_payout : Transaction :=
  {| tx_hash := hex64 "6"; kind := TkTreasuryTransfer (proposal_id 0);
     from := ""; to := "bob"; amount := 50 |}.
Definition b2 : Block :=
  {| height := 2; hash := hex64 "5"; parent_hash := Some (hex64 "3");
     transactions := [tx_payout]; timestamp := 10000 |}.
Definition st3 : State := snd (appendBlock st2 b2).

End Scenario.

(** ** The HTTP tests (src/testsprite_tests)

    JSON values as the tests' [resp.json()] produces them, objects as the
    list of their entries in order (a Python dict, keys distinct), and the
    response of a request. *)
Module Http.
Import TokenLedger Governance Chain Query.

Local Set Warnings "-register-all".

Inductive json :=
  | JNull
  | JBool (b : bool)
  | JInt (z : Z)
  | JStr (s : string)
  | JList (l : list json)
  | JObj (kvs : list (string * json)).

Record response := { status : Z; body : json }.

(** [d.get(k)] / [d[k]] on a dict. *)
Fixpoint py_get (d : list (string * json)) (k : string) : option json :=
  match d with
  | [] => None
  | (k', v) :: rest => if String.eqb k' k then Some v else py_get rest k
  end.

(** [isinstance(v, int)] (a bool is an int in Python) with the value. *)
Definition py_int (v : json) : option Z :=
  match v with
  | JInt z => Some z
  | JBool b => Some (if b then 1 else 0)
  | _ => None
  end.

(** Python's truth value of [valid_block_hash] (None or a str). *)
Definition truthy (o : option string) : bool :=
  match o with
  | Some s => negb (String.eqb s "")
  | None => false
  end.

Definition status_in (r : response) (codes : list Z) : bool :=
  existsb (Z.eqb (status r)) codes.

(** TC001 lines 31-34: the first of the keys whose value is a str. *)
Fixpoint first_str_key (d : list (string * json)) (keys : list string) : option string :=
  match keys with
  | [] => None
  | k :: ks =>
      match py_get d k with
      | Some (JStr s) => Some s
      | _ => first_str_key d ks
      end
  end.

(** TC001 lines 37-40: the first str value of length at least 20. *)
Fixpoint first_long_str (vs : list json) : option string :=
  match vs with
  | [] => None
  | JStr s :: rest =>
      if (20 <=? String.length s)%nat then Some s else first_long_str rest
  | _ :: rest => first_long_str rest
  end.

(** TC001 lines 29-40: the block hash the test extracts from the block. *)
Definition extract_block_hash (d : list (string * json)) : option string :=
  let h := first_str_key d ["hash"; "block_hash"; "id"] in
  if truthy h then h
  else match first_long_str (map snd d) with
       | Some v => Some v
       | None => h
       end.

(** TC001 line 69: [h[:-1] + ("0" if h[-1] != "0" else "1")]; [h[-1]]
    raises on the empty string. *)
Definition mutate_hash (h : string) : option string :=
  match rev (list_ascii_of_string h) with
  | [] => None
  | c :: rest =>
      Some (string_of_list_ascii
              (rev rest ++ [if Ascii.eqb c "0"%char then "1"%char else "0"%char]))
  end.

(** [test_get_block_by_hashorid] (TC001) against a [GET /block/{hashorid}]
    endpoint: true when every assertion holds. *)
Definition tc001 (get_block : string -> response) : bool :=
  let r := get_block "0" in
  (status r =? 200) &&
  match body r with
  | JObj d =>
      let h := extract_block_hash d in
      match h with
      | Some hv =>
          if truthy h then
            let r2 := get_block hv in
            (status r2 =? 200) &&
            match body r2 with JObj _ => true | _ => false end &&
            status_in (get_block "!!!invalid_hash@@@") [400; 404] &&
            status_in (get_block "9999999") [400; 404] &&
            match mutate_hash hv with
            | Some m => status_in (get_block m) [400; 404]
            | None => false
            end
          else
            status_in (get_block "!!!invalid_hash@@@") [400; 404] &&
            status_in (get_block "9999999") [400; 404]
      | None =>
          status_in (get_block "!!!invalid_hash@@@") [400; 404] &&
          status_in (get_block "9999999") [400; 404]
      end
  | _ => false
  end.

(** [test_get_transaction_by_hash] (TC002) against a [GET /tx/{hash}]
    endpoint. *)
Definition tc002 (get_tx : string -> response) : bool :=
  let r1 := get_tx (string_of_list_ascii (repeat "a"%char 64)) in
  status_in r1 [200; 404] &&
  (if status r1 =? 200 then
     match body r1 with
     | JObj d =>
         match py_get d "hash" with
         | Some (JStr _) | None => true
         | Some _ => false
         end &&
         existsb (fun k => if py_get d k then true else false)
                 ["block_hash"; "from"; "to"; "amount"]
     | _ => false
     end
   else true) &&
  status_in (get_tx "!!!invalidhash@@@") [400; 404; 422] &&
  (status (get_tx (string_of_list_ascii (repeat "f"%char 64))) =? 404).

(** The proposal sent by TC004 (lines 20-29; the private key goes to the
    authentication layer). *)
Definition tc004_payload : ProposalPayload :=
  {| pl_title := "Test Proposal - Governance API Validation";
     pl_description := "Proposal created for testing GET /dao/proposals endpoint";
     pl_proposal_type := "general"; pl_voting_type := "token-based";
     pl_duration := 3600; pl_threshold := 50 |}.

Definition is_str_at (d : list (string * json)) (k : string) : bool :=
  match py_get d k with Some (JStr _) => true | _ => false end.
Definition is_int_at (d : list (string * json)) (k : string) : bool :=
  match py_get d k with Some v => if py_int v then true else false | None => false end.
Definition str_eq_at (d : list (string * json)) (k v : string) : bool :=
  match py_get d k with Some (JStr s) => String.eqb s v | _ => false end.

(** TC004 lines 42-51: the shape of a listed proposal. *)
Definition tc004_item_ok (p : json) : bool :=
  match p with
  | JObj d =>
      is_str_at d "id" && is_str_at d "title" && is_str_at d "description" &&
      is_str_at d "proposal_type" && is_str_at d "voting_type" &&
      is_int_at d "duration" && is_int_at d "threshold"
  | _ => false
  end.

(** TC004 lines 74-85: the [for ... else] looking for the created id. *)
Fixpoint tc004_find (ps : list json) (pid : string) : bool :=
  match ps with
  | [] => false
  | JObj d :: rest =>
      if str_eq_at d "id" pid then
        str_eq_at d "title" (pl_title tc004_payload) &&
        str_eq_at d "description" (pl_description tc004_payload) &&
        str_eq_at d "proposal_type" (pl_proposal_type tc004_payload) &&
        str_eq_at d "voting_type" (pl_voting_type tc004_payload) &&
        is_int_at d "duration" && is_int_at d "threshold"
      else tc004_find rest pid
  | _ :: _ => false
  end.

(** [test_get_all_governance_proposals] (TC004) against a node state [g]
    serving [GET /dao/proposals] ([list_ep]) and [POST /dao/proposal]
    ([create_ep]), the three requests made at times [t0], [t1], [t2]. *)
Definition tc004 {S} (list_ep : S -> Z -> response)
    (create_ep : S -> ProposalPayload -> Z -> response * S)
    (g : S) (t0 t1 t2 : Z) : bool :=
  let r := list_ep g t0 in
  (status r =? 200) &&
  match body r with
  | JList (p :: ps) => forallb tc004_item_ok (firstn 5 (p :: ps))
  | JList [] =>
      let '(cr, g') := create_ep g tc004_payload t1 in
      (status cr =? 200) &&
      match body cr with
      | JObj d =>
          match py_get d "id" with
          | Some (JStr pid) =>
              negb (String.eqb pid "") &&
              let r2 := list_ep g' t2 in
              (status r2 =? 200) &&
              match body r2 with
              | JList ps2 =>
                  existsb (fun p => match p with
                                    | JObj d' => str_eq_at d' "id" pid
                                    | _ => false
                                    end) ps2 &&
                  tc004_find ps2 pid
              | _ => false
              end
          | _ => false
          end
      | _ => false
      end
  | _ => false
  end.

(** [test_get_treasury_status_and_balance] (TC007) on a [GET /dao/treasury]
    response. *)
Definition tc007 (r : response) : bool :=
  (status r =? 200) &&
  match body r with
  | JObj d =>
      match py_get d "balance" with
      | Some v => match py_int v with Some z => 0 <=? z | None => false end
      | None => false
      end
  | _ => false
  end.


(** Modelled from the spec: the thin API layer of section 6, mapping errors
    to status codes (NotFound to 404, the other errors of the table to 400)
    and records to JSON objects. *)
Definition http_status (e : Error) : Z :=
  match e with
  | NotFound => 404
  | _ => 400
  end.

Definition error_response (e : Error) : response :=
  {| status := http_status e; body := JObj [("error", JNull)] |}.

Definition kind_name (k : TxKind) : string :=
  match k with
  | TkTransfer => "transfer"
  | TkProposalCreate _ => "proposal_create"
  | TkVote _ _ => "vote"
  | TkTreasuryTransfer _ => "treasury_transfer"
  end.

Definition tx_json (t : Transaction) : json :=
  JObj [("hash", JStr (tx_hash t)); ("kind", JStr (kind_name (kind t)));
        ("from", JStr (from t)); ("to", JStr (to t)); ("amount", JInt (amount t))].

Definition block_json (b : Block) : json :=
  JObj [("height", JInt (Z.of_N (height b))); ("hash", JStr (hash b));
        ("parent_hash", match parent_hash b with Some p => JStr p | None => JNull end);
        ("transactions", JList (map tx_json (transactions b)));
        ("timestamp", JInt (timestamp b))].

Definition status_name (s : Status) : string :=
  match s with
  | Open => "open" | Passed => "passed" | Rejected => "rejected" | Expired => "expired"
  end.

Definition proposal_json (p : Proposal) : json :=
  JObj [("id", JStr (id p)); ("title", JStr (title p));
        ("description", JStr (description p));
        ("proposal_type", JStr (proposal_type p));
        ("voting_type", JStr (voting_type p));
        ("duration", JInt (duration p)); ("threshold", JInt (threshold p));
        ("status", JStr (status_name (Governance.status p)));
        ("created_at", JInt (created_at p))].

Definition respond {A} (to_json : A -> json) (r : result A) : response :=
  match r with
  | Ok a => {| status := 200; body := to_json a |}
  | Err e => error_response e
  end.

(** [GET /block/{hashorid}] and [GET /tx/{hash}]. *)
Definition block_endpoint (st : State) (x : string) : response :=
  respond block_json (getBlock st x).
Definition tx_endpoint (st : State) (x : string) : response :=
  respond tx_json (getTransaction st x).

(** [GET /dao/proposals] and [POST /dao/proposal]. *)
Definition proposals_endpoint (g : proposals) (now : Z) : response :=
  {| status := 200; body := JList (map proposal_json (listProposals g now)) |}.
Definition create_endpoint (g : proposals) (pl : ProposalPayload) (now : Z)
    : response * proposals :=
  match createProposal g pl now with
  | (Ok pid, g') => ({| status := 200; body := JObj [("id", JStr pid)] |}, g')
  | (Err e, g') => (error_response e, g')
  end.

(** [GET /dao/treasury]. *)
Definition treasury_endpoint (st : State) : response :=
  respond (fun z => JObj [("balance", JInt z)]) (treasuryBalance st).


End Http.

(** The Hash Index is complete: every stored block is indexed under its
    digest, and every transaction of a stored block under its own. *)
Module Completeness.
Import Chain.

Definition index_complete (st : State) : Prop :=
  (forall b, b ∈ chain st -> by_hash st !! hash b = Some b) /\
  (forall b t, b ∈ chain st -> t ∈ transactions b ->
     tx_index st !! tx_hash t = Some t).

End Completeness.

(** * Proofs *)

Module LedgerFacts.
Import TokenLedger.

Lemma foldr_add_perm (l1 l2 : list Z) :
  l1 ≡ₚ l2 -> foldr Z.add 0 l1 = foldr Z.add 0 l2.
Proof. induction 1; simpl; lia. Qed.

Lemma total_perm (L : balances) l :
  map_to_list L ≡ₚ l -> total L = foldr Z.add 0 (map snd l).
Proof. intros Hp. unfold total. apply foldr_add_perm. by rewrite Hp. Qed.

Lemma total_delete (L : balances) k :
  total L = total (delete k L) + balanceOf L k.
Proof.
  unfold balanceOf. destruct (L !! k) as [v|] eqn:E.
  - rewrite (total_perm L ((k, v) :: map_to_list (delete k L))).
    + simpl. unfold total. lia.
    + symmetry. by apply map_to_list_delete.
  - rewrite delete_id by done. lia.
Qed.

Lemma total_insert (L : balances) k v :
  total (<[k := v]> L) = total (delete k L) + v.
Proof.
  rewrite <- insert_delete_eq.
  rewrite (total_perm _ ((k, v) :: map_to_list (delete k L))).
  - simpl. unfold total. lia.
  - apply map_to_list_insert. apply lookup_delete_eq.
Qed.

Lemma balanceOf_insert_eq (L : balances) k v : balanceOf (<[k := v]> L) k = v.
Proof. unfold balanceOf. by rewrite lookup_insert_eq. Qed.

Lemma balanceOf_insert_ne (L : balances) k k' v :
  k <> k' -> balanceOf (<[k := v]> L) k' = balanceOf L k'.
Proof. intros. unfold balanceOf. by rewrite lookup_insert_ne. Qed.

(** The success case of [applyTransfer], unfolded. *)
Lemma applyTransfer_ok (L L' : balances) f t a :
  applyTransfer L f t a = (Ok tt, L') ->
  0 < a /\ a <= balanceOf L f /\
  L' = <[t := balanceOf (<[f := balanceOf L f - a]> L) t + a]>
         (<[f := balanceOf L f - a]> L).
Proof.
  unfold applyTransfer.
  destruct (Z.leb_spec a 0); [congruence|].
  destruct (Z.ltb_spec (balanceOf L f) a); [congruence|].
  intros [=]. auto.
Qed.

(** A failed [applyTransfer] returns the ledger it was given. *)
Lemma applyTransfer_err (L L' : balances) f t a e :
  applyTransfer L f t a = (Err e, L') -> L' = L.
Proof.
  unfold applyTransfer.
  destruct (a <=? 0); [congruence|].
  destruct (balanceOf L f <? a); congruence.
Qed.

Lemma applyTransfer_total (L L' : balances) f t a :
  applyTransfer L f t a = (Ok tt, L') -> total L' = total L.
Proof.
  intros (_ & _ & ->)%applyTransfer_ok.
  rewrite total_insert.
  pose proof (total_delete (<[f := balanceOf L f - a]> L) t) as H1.
  rewrite total_insert in H1. pose proof (total_delete L f). lia.
Qed.

Lemma nonneg_balanceOf (L : balances) a : nonneg L -> 0 <= balanceOf L a.
Proof.
  intros HL. unfold balanceOf. destruct (L !! a) eqn:E; [|lia].
  by apply (HL a).
Qed.

Lemma nonneg_insert (L : balances) k v :
  nonneg L -> 0 <= v -> nonneg (<[k := v]> L).
Proof. intros. by apply map_Forall_insert_2. Qed.

Lemma applyTransfer_nonneg (L L' : balances) f t a :
  nonneg L -> applyTransfer L f t a = (Ok tt, L') -> nonneg L'.
Proof.
  intros HL (Ha & Hb & ->)%applyTransfer_ok.
  apply nonneg_insert; [apply nonneg_insert; [done | lia]|].
  pose proof (nonneg_balanceOf (<[f := balanceOf L f - a]> L) t) as H.
  assert (0 <= balanceOf (<[f:=balanceOf L f - a]> L) t).
  { apply nonneg_balanceOf, nonneg_insert; [done|lia]. }
  lia.
Qed.

End LedgerFacts.

Module GovFacts.
Import TokenLedger Governance Invariants.

Lemma proposal_id_inj n m : proposal_id n = proposal_id m -> n = m.
Proof.
  unfold proposal_id. intros H.
  apply (inj (String.append "proposal-")) in H.
  apply (inj pretty) in H. by apply (inj N.of_nat) in H.
Qed.

Lemma gov_ok_NoDup (g : proposals) : gov_ok g -> NoDup (map id g).
Proof.
  unfold gov_ok. intros ->.
  assert (Inj (=) (=) proposal_id) by (intros ??; apply proposal_id_inj).
  apply (NoDup_fmap_2 proposal_id). apply NoDup_seq.
Qed.

Lemma findProposal_Some (g : proposals) pid p :
  findProposal g pid = Some p -> p ∈ g /\ id p = pid.
Proof.
  induction g as [|q rest IH]; simpl; [congruence|].
  destruct (String.eqb_spec (id q) pid).
  - intros [= <-]. split; [left|]; done.
  - intros (? & ?)%IH. split; [right|]; done.
Qed.

Lemma filter_id_nil (l : proposals) pid :
  pid ∉ map id l -> filter (fun q => id q = pid) l = [].
Proof.
  induction l as [|r l IH]; simpl; [done|].
  intros Hn. rewrite filter_cons_False.
  - apply IH. intros ?. apply Hn. by right.
  - intros <-. apply Hn. by left.
Qed.

(** With distinct ids, the proposal found is the only one with its id. *)
Lemma findProposal_unique (g : proposals) pid p :
  NoDup (map id g) -> findProposal g pid = Some p ->
  filter (fun q => id q = pid) g = [p].
Proof.
  induction g as [|q rest IH]; simpl; [congruence|].
  intros Hnd. apply NoDup_cons in Hnd as [Hnin Hnd].
  destruct (String.eqb_spec (id q) pid) as [Heq|Hne].
  - intros [= <-]. rewrite filter_cons_True by done.
    f_equal. apply filter_id_nil. by rewrite <- Heq.
  - intros Hf. rewrite filter_cons_False by done. by apply IH.
Qed.

Lemma createProposal_ok (g g' : proposals) pl now pid :
  createProposal g pl now = (Ok pid, g') ->
  pid = proposal_id (length g) /\
  g' = g ++ [{| id := pid; title := pl_title pl; description := pl_description pl;
                proposal_type := pl_proposal_type pl;
                voting_type := pl_voting_type pl;
                duration := pl_duration pl; threshold := pl_threshold pl;
                status := Open; created_at := now; votes := ∅ |}].
Proof. unfold createProposal. case_match; [|congruence]. intros [= <- <-]. auto. Qed.

Lemma createProposal_gov_ok (g g' : proposals) pl now pid :
  gov_ok g -> createProposal g pl now = (Ok pid, g') -> gov_ok g'.
Proof.
  unfold gov_ok. intros Hg (-> & ->)%createProposal_ok.
  rewrite length_app, map_app, Hg. simpl.
  rewrite Nat.add_1_r, seq_S, map_app. done.
Qed.

Lemma updateProposal_ids (g : proposals) pid f :
  (forall q, id (f q) = id q) -> map id (updateProposal g pid f) = map id g.
Proof.
  intros Hf. unfold updateProposal. rewrite map_map.
  apply map_ext. intros q. by case_match.
Qed.

Lemma castVote_err (g g' : proposals) L pid voter c now e :
  castVote g L pid voter c now = (Err e, g') -> g' = g.
Proof. unfold castVote. repeat case_match; congruence. Qed.

Lemma castVote_ok (g g' : proposals) L pid voter c now :
  castVote g L pid voter c now = (Ok tt, g') -> map id g' = map id g.
Proof.
  unfold castVote. repeat case_match; try congruence.
  intros [= <-]. by apply updateProposal_ids.
Qed.

Lemma castVote_gov_ok (g g' : proposals) L pid voter c now :
  gov_ok g -> castVote g L pid voter c now = (Ok tt, g') -> gov_ok g'.
Proof.
  unfold gov_ok. intros Hg H.
  pose proof (castVote_ok _ _ _ _ _ _ _ H) as Hids.
  rewrite Hids, Hg. f_equal. f_equal.
  erewrite <- (length_map id g'), Hids. by rewrite length_map.
Qed.

End GovFacts.

Module ChainFacts.
Import TokenLedger Governance Chain Invariants LedgerFacts GovFacts.

Lemma applyTreasuryTransfer_ok T L (g : proposals) pid to a now T' L' :
  applyTreasuryTransfer T L g pid to a now = (Ok tt, (T', L')) ->
  exists p, findProposal g pid = Some p /\ evaluateStatus p now = Passed /\
    0 < a /\ a <= T /\ T' = T - a /\ L' = <[to := balanceOf L to + a]> L.
Proof.
  unfold applyTreasuryTransfer.
  destruct (findProposal g pid) as [p|]; [|congruence].
  destruct (decide (evaluateStatus p now = Passed)); [|congruence].
  destruct (Z.leb_spec a 0); [congruence|].
  destruct (Z.ltb_spec T a); [congruence|].
  intros [= <- <-]. exists p. auto 10.
Qed.

(** One transaction touches neither the blocks nor their indexes, and
    indexes its own digest, which was new. *)
Lemma apply_tx_frame now s t s' :
  apply_tx now s t = Ok s' ->
  chain s' = chain s /\ by_hash s' = by_hash s /\ by_height s' = by_height s /\
  tx_index s' = <[tx_hash t := t]> (tx_index s) /\ tx_index s !! tx_hash t = None.
Proof.
  unfold apply_tx. destruct (tx_index s !! tx_hash t) eqn:E; [congruence|].
  destruct (kind t); repeat case_match; intros [= <-]; simpl; auto.
Qed.

Lemma apply_tx_ledger_ok now s t s' :
  ledger_ok s -> apply_tx now s t = Ok s' -> ledger_ok s'.
Proof.
  intros (HL & HT & Hg). unfold apply_tx.
  destruct (tx_index s !! tx_hash t); [congruence|].
  destruct (kind t) as [|pl|pid c|pid]; simpl.
  - destruct (applyTransfer _ _ _ _) as [[[]|e] L'] eqn:E; [|congruence].
    intros [= <-]. split; [|split]; simpl; try done.
    by eapply applyTransfer_nonneg.
  - destruct (createProposal _ _ _) as [[pid|e] g'] eqn:E; [|congruence].
    intros [= <-]. split; [|split]; simpl; try done.
    by eapply createProposal_gov_ok.
  - destruct (castVote _ _ _ _ _ _) as [[[]|e] g'] eqn:E; [|congruence].
    intros [= <-]. split; [|split]; simpl; try done.
    by eapply castVote_gov_ok.
  - destruct (applyTreasuryTransfer _ _ _ _ _ _ _) as [[[]|e] [T' L']] eqn:E;
      [|congruence].
    intros [= <-].
    apply applyTreasuryTransfer_ok in E as (p & _ & _ & Ha & HaT & -> & ->).
    split; [|split]; simpl; try done; [|lia].
    apply nonneg_insert; [done|].
    pose proof (nonneg_balanceOf (ledger s) (to t) HL). lia.
Qed.

Lemma apply_txs_ledger_ok now s ts s' :
  ledger_ok s -> apply_txs now s ts = Ok s' -> ledger_ok s'.
Proof.
  revert s. induction ts as [|t ts IH]; simpl; intros s Hs.
  - by intros [= <-].
  - destruct (apply_tx now s t) as [s1|e] eqn:E; simpl; [|congruence].
    apply IH. by eapply apply_tx_ledger_ok.
Qed.

(** A block's transactions leave the blocks and their indexes alone and
    only add their own digests to the transaction index. *)
Lemma apply_txs_frame now s ts s' :
  apply_txs now s ts = Ok s' ->
  chain s' = chain s /\ by_hash s' = by_hash s /\ by_height s' = by_height s /\
  (forall h t, tx_index s' !! h = Some t ->
     tx_index s !! h = Some t \/ (t ∈ ts /\ tx_hash t = h)).
Proof.
  revert s. induction ts as [|t ts IH]; simpl; intros s.
  - intros [= <-]. auto.
  - destruct (apply_tx now s t) as [s1|e] eqn:E; simpl; [|congruence].
    intros H. apply IH in H as (-> & -> & -> & Hi).
    apply apply_tx_frame in E as (-> & -> & -> & Hti & _).
    split; [done|split; [done|split; [done|]]].
    intros h t' Ht'. apply Hi in Ht' as [Ht'|[Hin Hh]].
    + rewrite Hti in Ht'.
      destruct (decide (tx_hash t = h)) as [<-|Hne].
      * rewrite lookup_insert_eq in Ht'. injection Ht' as <-.
        right. split; [left|]; done.
      * rewrite lookup_insert_ne in Ht' by done. by left.
    + right. split; [right|]; done.
Qed.

(** A failed [appendBlock] returns the state it was given. *)
Lemma appendBlock_err st b e st' :
  appendBlock st b = (Err e, st') -> st' = st.
Proof. unfold appendBlock. repeat case_match; congruence. Qed.

Lemma appendBlock_ok st b st' :
  appendBlock st b = (Ok tt, st') ->
  height b = expected_height st /\ parent_hash b = expected_parent st /\
  by_hash st !! hash b = None /\
  exists s', apply_txs (timestamp b) st (transactions b) = Ok s' /\
    st' = {| chain := chain s' ++ [b];
             by_hash := <[hash b := b]> (by_hash s');
             by_height := <[height b := b]> (by_height s');
             tx_index := tx_index s'; ledger := ledger s';
             treasury := treasury s'; gov := gov s' |}.
Proof.
  unfold appendBlock.
  destruct (decide _) as [[Hh Hp]|]; [|congruence].
  destruct (by_hash st !! hash b) eqn:Hb; [congruence|].
  destruct (apply_txs _ _ _) as [s'|e] eqn:E; [|congruence].
  intros [= <-]. eauto 10.
Qed.

End ChainFacts.

Module ReachFacts.
Import TokenLedger Governance Chain Invariants LedgerFacts GovFacts ChainFacts.

Lemma expected_height_length (bs : list Block) :
  chain_ok bs ->
  match last bs with Some tip => (height tip + 1)%N | None => 0%N end
  = N.of_nat (length bs).
Proof.
  intros Hok. rewrite last_lookup.
  destruct bs as [|b0 bs']; [done|].
  simpl length. simpl pred.
  destruct ((b0 :: bs') !! length bs') as [tip|] eqn:E.
  - apply Hok in E as [-> _]. lia.
  - apply lookup_ge_None in E. simpl in E. lia.
Qed.

Lemma chain_ok_snoc (bs : list Block) b :
  chain_ok bs ->
  height b = match last bs with Some tip => (height tip + 1)%N | None => 0%N end ->
  parent_hash b = option_map hash (last bs) ->
  chain_ok (bs ++ [b]).
Proof.
  intros Hok Hh Hp i b' Hi.
  apply lookup_snoc_Some in Hi as [[Hlt Hi]|[-> <-]].
  - destruct (Hok i b' Hi) as [H1 H2]. split; [done|].
    rewrite H2. destruct i as [|j]; [done|].
    rewrite lookup_app_l by lia. done.
  - split.
    + rewrite Hh. by apply expected_height_length.
    + rewrite Hp. destruct bs as [|tip bs0 _] using rev_ind; [done|].
      rewrite last_snoc, length_app, Nat.add_1_r, <- app_assoc.
      simpl. by rewrite list_lookup_middle.
Qed.

Lemma index_ok_append st b s' :
  chain_ok (chain st) -> index_ok st ->
  height b = expected_height st ->
  apply_txs (timestamp b) st (transactions b) = Ok s' ->
  index_ok {| chain := chain s' ++ [b];
              by_hash := <[hash b := b]> (by_hash s');
              by_height := <[height b := b]> (by_height s');
              tx_index := tx_index s'; ledger := ledger s';
              treasury := treasury s'; gov := gov s' |}.
Proof.
  intros Hok (Hhe & Hha & Htx) Hh Happ.
  apply apply_txs_frame in Happ as (Hc & Hbh & Hbn & Hti).
  unfold expected_height in Hh. rewrite (expected_height_length _ Hok) in Hh.
  unfold index_ok. cbn [chain by_hash by_height tx_index]. rewrite Hc, Hbh, Hbn.
  split; [|split].
  - intros n. destruct (decide (n = height b)) as [->|Hne].
    + rewrite lookup_insert_eq, Hh, Nat2N.id.
      rewrite lookup_app_r, Nat.sub_diag by lia. done.
    + rewrite lookup_insert_ne by done. rewrite Hhe.
      destruct (decide (N.to_nat n < length (chain st))%nat).
      * by rewrite lookup_app_l.
      * rewrite !lookup_ge_None_2; [done| |].
        -- rewrite length_app. simpl.
           assert (N.to_nat n <> length (chain st))%nat by (intros ?; apply Hne; lia).
           lia.
        -- lia.
  - intros h b' Hb'. destruct (decide (hash b = h)) as [<-|Hne].
    + rewrite lookup_insert_eq in Hb'. injection Hb' as <-.
      split; [done|]. apply elem_of_app. right. by left.
    + rewrite lookup_insert_ne in Hb' by done.
      apply Hha in Hb' as [? ?]. split; [done|]. apply elem_of_app. by left.
  - intros h t Ht. apply Hti in Ht as [Ht|[Hin Hh']].
    + apply Htx in Ht as (? & b0 & ? & ?). split; [done|].
      exists b0. split; [apply elem_of_app; by left|done].
    + split; [done|]. exists b. split; [|done]. apply elem_of_app. right. by left.
Qed.

(** The invariants hold in every reachable state. *)
Lemma reachable_inv st :
  reachable st -> chain_ok (chain st) /\ index_ok st /\ ledger_ok st.
Proof.
  induction 1 as [alloc t0 Ha Ht|st st' _ (Hok & Hidx & Hl) Hstep].
  - unfold init_state. split; [|split].
    + intros i b. cbn [chain]. rewrite lookup_nil. congruence.
    + unfold index_ok. cbn [chain by_hash by_height tx_index]. split; [|split].
      * intros n. by rewrite lookup_empty, lookup_nil.
      * intros h b. rewrite lookup_empty. congruence.
      * intros h t. rewrite lookup_empty. congruence.
    + split; [|split]; simpl; done.
  - destruct Hstep as [st b st' Hap|st pl now pid g' Hc|st pid voter c now g' Hv].
    + apply appendBlock_ok in Hap as (Hh & Hp & _ & s' & Happ & ->).
      pose proof (apply_txs_frame _ _ _ _ Happ) as (Hc & _).
      split; [|split].
      * simpl. rewrite Hc. apply chain_ok_snoc; [done|exact Hh|exact Hp].
      * by eapply index_ok_append.
      * pose proof (apply_txs_ledger_ok _ _ _ _ Hl Happ) as (? & ? & ?).
        split; [|split]; simpl; done.
    + split; [done|split; [done|]].
      destruct Hl as (? & ? & ?). split; [|split]; simpl; try done.
      by eapply createProposal_gov_ok.
    + split; [done|split; [done|]].
      destruct Hl as (? & ? & ?). split; [|split]; simpl; try done.
      by eapply castVote_gov_ok.
Qed.

End ReachFacts.

Module Scenario_facts.
Import TokenLedger Governance Chain Scenario.

Lemma step01 : step st0 st1.
Proof. apply (step_append st0 b0). vm_compute. reflexivity. Qed.
Lemma step12 : step st1 st2.
Proof. apply (step_append st1 b1). vm_compute. reflexivity. Qed.
Lemma step23 : step st2 st3.
Proof. apply (step_append st2 b2). vm_compute. reflexivity. Qed.

Lemma reachable_st0 : reachable st0.
Proof.
  apply reach_init; [|lia].
  apply (bool_decide_unpack _). vm_compute. reflexivity.
Qed.
Lemma reachable_st3 : reachable st3.
Proof.
  eapply reach_step; [|exact step23].
  eapply reach_step; [|exact step12].
  eapply reach_step; [exact reachable_st0|exact step01].
Qed.

(** The run does what its description says. *)
Example st3_balances :
  treasury st3 = 950 /\ balanceOf (ledger st3) "alice" = 70 /\
  balanceOf (ledger st3) "bob" = 80.
Proof. vm_compute. auto. Qed.

Example st3_lookups :
  Query.getBlock st3 "9999999" = Err NotFound /\
  Query.getBlock st3 "!!!invalid_hash@@@" = Err InvalidFormat /\
  Query.getTransaction st3 "!!!invalidhash@@@" = Err InvalidFormat.
Proof. vm_compute. auto. Qed.

(** A block paying out of the Treasury without a passed proposal is
    rejected and leaves the state as it was. *)
Example early_payout_rejected :
  appendBlock st1 {| height := 1; hash := hex64 "3"; parent_hash := Some (hex64 "0");
                     transactions := [tx_payout]; timestamp := 10 |}
  = (Err InvalidProposal, st1).
Proof. vm_compute. reflexivity. Qed.

End Scenario_facts.

Module Claims.
Import TokenLedger Governance Chain Invariants Query Scenario
       LedgerFacts GovFacts ChainFacts ReachFacts Scenario_facts.

Lemma apply_txs_app now s pre rest :
  apply_txs now s (pre ++ rest) =
  res_bind (apply_txs now s pre) (fun s1 => apply_txs now s1 rest).
Proof.
  revert s. induction pre as [|t pre IH]; intros s; simpl; [done|].
  destruct (apply_tx now s t); simpl; [apply IH|done].
Qed.

(** C1: appendBlock is all-or-nothing.  A rejected block returns the state
    exactly as it was; a block whose header does not extend the tip is
    rejected with ChainForkRejected; and a block in which some transaction
    fails validation (a duplicate digest, an insufficient balance, an
    invalid amount, ...) against the effects of the transactions before it
    is rejected as a whole, with the state unchanged. *)
Theorem appendBlock_all_or_nothing :
  (forall st b e st', appendBlock st b = (Err e, st') -> st' = st) /\
  (forall st b,
     ~ (height b = expected_height st /\ parent_hash b = expected_parent st) ->
     appendBlock st b = (Err ChainForkRejected, st)) /\
  (forall st b pre t post s1 e,
     transactions b = pre ++ t :: post ->
     apply_txs (timestamp b) st pre = Ok s1 ->
     apply_tx (timestamp b) s1 t = Err e ->
     exists e', appendBlock st b = (Err e', st)).
Proof.
  split; [|split].
  - apply appendBlock_err.
  - intros st b Hn. unfold appendBlock. by rewrite decide_False.
  - intros st b pre t post s1 e Htx Hpre Ht.
    unfold appendBlock. destruct (decide _); [|eauto].
    destruct (by_hash st !! hash b); [eauto|].
    rewrite Htx, apply_txs_app, Hpre. simpl. rewrite Ht. simpl. eauto.
Qed.

(** C2, as stated, fails on a transfer to oneself: Alice sending 5 of her
    100 tokens to herself succeeds and leaves her with 100, not 95. *)
Lemma applyTransfer_self_counterexample :
  ~ (forall (L L' : balances) f t a,
       applyTransfer L f t a = (Ok tt, L') ->
       balanceOf L' f + a = balanceOf L f /\ balanceOf L' t = balanceOf L t + a).
Proof.
  intros H.
  destruct (H alloc0 (snd (applyTransfer alloc0 "alice" "alice" 5))
              "alice" "alice" 5) as [H1 _].
  - vm_compute. reflexivity.
  - vm_compute in H1. discriminate.
Qed.

(** C2 (amended): a successful transfer between two distinct addresses
    debits the sender by the amount and credits the receiver by it; a
    successful transfer to oneself leaves that balance unchanged; and the
    sum of all balances is unchanged by any sequence of successful
    transfers. *)
Theorem applyTransfer_balances_conserved :
  (forall (L L' : balances) f t a,
     applyTransfer L f t a = (Ok tt, L') -> f <> t ->
     balanceOf L' f + a = balanceOf L f /\ balanceOf L' t = balanceOf L t + a) /\
  (forall (L L' : balances) f a,
     applyTransfer L f f a = (Ok tt, L') -> balanceOf L' f = balanceOf L f) /\
  (forall (L L' : balances) ts,
     applyTransfers L ts = (Ok tt, L') -> total L' = total L).
Proof.
  split; [|split].
  - intros L L' f t a (_ & _ & ->)%applyTransfer_ok Hne.
    rewrite balanceOf_insert_ne by done. rewrite balanceOf_insert_eq.
    rewrite balanceOf_insert_eq, balanceOf_insert_ne by congruence. lia.
  - intros L L' f a (_ & _ & ->)%applyTransfer_ok.
    rewrite !balanceOf_insert_eq. lia.
  - intros L L' ts. revert L. induction ts as [|[[f t] a] ts IH]; simpl; intros L.
    + by intros [= ->].
    + destruct (applyTransfer L f t a) as [[[]|e] L1] eqn:E; [|congruence].
      intros H. rewrite (IH _ H). by eapply applyTransfer_total.
Qed.

(** C3: in every reachable state, a transfer of more than the sender's
    balance fails with InsufficientBalance and a transfer of a
    non-positive amount fails with InvalidAmount; either way the ledger
    returned is the one given, so both balances are unchanged. *)
Theorem applyTransfer_failures_unchanged :
  (forall st f t a,
     reachable st -> balanceOf (ledger st) f < a ->
     applyTransfer (ledger st) f t a = (Err InsufficientBalance, ledger st)) /\
  (forall (L : balances) f t a,
     a <= 0 -> applyTransfer L f t a = (Err InvalidAmount, L)).
Proof.
  split.
  - intros st f t a Hr Hlt.
    destruct (reachable_inv st Hr) as (_ & _ & HL & _).
    pose proof (nonneg_balanceOf _ f HL).
    unfold applyTransfer.
    destruct (Z.leb_spec a 0); [lia|].
    destruct (Z.ltb_spec (balanceOf (ledger st) f) a); [done|lia].
  - intros L f t a Ha. unfold applyTransfer.
    destruct (Z.leb_spec a 0); [done|lia].
Qed.

(** C8: balanceOf is a total function to the integers; it is 0 for an
    address with no entry in the ledger, and non-negative in every
    reachable state. *)
Theorem balanceOf_total_nonneg :
  (forall (L : balances) a, L !! a = None -> balanceOf L a = 0) /\
  (forall st a, reachable st -> 0 <= balanceOf (ledger st) a).
Proof.
  split.
  - intros L a Ha. unfold balanceOf. by rewrite Ha.
  - intros st a Hr. destruct (reachable_inv st Hr) as (_ & _ & HL & _).
    by apply nonneg_balanceOf.
Qed.

(** C4: after the genesis block is appended, getBlock "0" returns a block of
    height 0 with no parent; a string that is neither a well-formed digest
    nor a well-formed non-negative integer is InvalidFormat; a well-formed
    digest of no stored block, or a well-formed height (that is not also a
    digest) of no stored block, is NotFound. *)
Theorem getBlock_contract :
  (forall st, reachable st -> chain st <> [] ->
     exists b, getBlock st "0" = Ok b /\ height b = 0%N /\ parent_hash b = None) /\
  (forall st s, is_digest s = false -> is_height s = false ->
     getBlock st s = Err InvalidFormat) /\
  (forall st s, reachable st -> is_digest s = true ->
     (forall b, b ∈ chain st -> hash b <> s) ->
     getBlock st s = Err NotFound) /\
  (forall st s, reachable st -> is_height s = true -> is_digest s = false ->
     (forall b, b ∈ chain st -> height b <> height_of s) ->
     getBlock st s = Err NotFound).
Proof.
  split; [|split; [|split]].
  - intros st Hr Hne.
    destruct (reachable_inv st Hr) as (Hok & (Hhe & _ & _) & _).
    destruct (chain st) as [|b0 rest] eqn:Ec; [done|].
    assert (Hb : by_height st !! 0%N = Some b0) by (rewrite Hhe; reflexivity).
    exists b0. unfold getBlock.
    replace (parse_hashorid "0") with (Some (ByHeight 0%N)) by reflexivity.
    cbv beta iota. rewrite Hb. simpl.
    specialize (Hok 0%nat b0).
    destruct Hok as [Hh Hp]; [done|]. auto.
  - intros st s Hd Hh. unfold getBlock, parse_hashorid. by rewrite Hd, Hh.
  - intros st s Hr Hd Hnone.
    destruct (reachable_inv st Hr) as (_ & (_ & Hha & _) & _).
    unfold getBlock, parse_hashorid. rewrite Hd. cbv beta iota.
    destruct (by_hash st !! s) as [b|] eqn:E; [|done].
    apply Hha in E as [Hh Hin]. by destruct (Hnone b Hin).
  - intros st s Hr Hh Hd Hnone.
    destruct (reachable_inv st Hr) as (Hok & (Hhe & _ & _) & _).
    unfold getBlock, parse_hashorid. rewrite Hd, Hh. cbv beta iota.
    rewrite Hhe. destruct (chain st !! N.to_nat (height_of s)) as [b|] eqn:E; [|done].
    exfalso. apply (Hnone b); [by eapply list_elem_of_lookup_2|].
    apply Hok in E as [-> _]. lia.
Qed.

(** C5: in every reachable state the chain's heights are its 0-based
    positions and each block's parent is the digest of the block before it
    (none for the genesis block); and every step only extends the chain,
    leaving the blocks already in it as they were. *)
Theorem chain_gapless_and_linked st :
  reachable st ->
  chain_ok (chain st) /\
  (forall st', step st st' -> exists ext, chain st' = chain st ++ ext).
Proof.
  intros Hr. split; [apply (reachable_inv st Hr)|].
  intros st' Hs. destruct Hs as [st b st' Hap|st pl now pid g' _|st pid voter c now g' _].
  - apply appendBlock_ok in Hap as (_ & _ & _ & s' & Happ & ->).
    apply apply_txs_frame in Happ as (Hc & _). exists [b]. simpl. by rewrite Hc.
  - exists []. by rewrite app_nil_r.
  - exists []. by rewrite app_nil_r.
Qed.

Lemma chain_gapless_and_linked_witness :
  chain_ok (chain st3) /\
  (forall st', step st3 st' -> exists ext, chain st' = chain st3 ++ ext).
Proof. exact (chain_gapless_and_linked st3 reachable_st3). Defined.

(** C6, as stated, fails once the proposal has closed: Alice's second vote
    on the proposal, cast after its deadline, is ProposalClosed. *)
Lemma castVote_repeat_counterexample :
  ~ (forall (g : proposals) L pid p voter c now,
       findProposal g pid = Some p -> is_Some (votes p !! voter) ->
       castVote g L pid voter c now = (Err DuplicateVote, g)).
Proof.
  intros H.
  destruct (findProposal (gov st2) (proposal_id 0)) as [p|] eqn:E;
    [|vm_compute in E; discriminate].
  pose proof (H (gov st2) (ledger st2) (proposal_id 0) p "alice" No 10000 E) as H1.
  vm_compute in E. injection E as <-.
  assert (Hv : castVote (gov st2) (ledger st2) (proposal_id 0) "alice" No 10000
               = (Err DuplicateVote, gov st2)) by (apply H1; eexists; reflexivity).
  vm_compute in Hv. discriminate.
Qed.

(** C6 (amended): a second vote from a voter who already has a vote record
    on the proposal returns DuplicateVote while the proposal is open and
    ProposalClosed once its evaluated status is no longer open; either way
    the proposals, with their vote records and tallies, are returned
    unchanged. *)
Theorem castVote_repeat_rejected (g : proposals) L pid p voter c now :
  findProposal g pid = Some p -> is_Some (votes p !! voter) ->
  (evaluateStatus p now = Open ->
     castVote g L pid voter c now = (Err DuplicateVote, g)) /\
  (evaluateStatus p now <> Open ->
     castVote g L pid voter c now = (Err ProposalClosed, g)).
Proof.
  intros Hf [wc Hv]. unfold castVote. rewrite Hf. split.
  - intros Ho. rewrite decide_False by auto. by rewrite Hv.
  - intros Hn. by rewrite decide_True.
Qed.

Lemma castVote_repeat_rejected_witness :
  findProposal (gov st2) (proposal_id 0) = Some prop0 /\
  is_Some (votes prop0 !! "alice") /\
  (evaluateStatus prop0 20 = Open ->
     castVote (gov st2) (ledger st2) (proposal_id 0) "alice" No 20
     = (Err DuplicateVote, gov st2)) /\
  (evaluateStatus prop0 20 <> Open ->
     castVote (gov st2) (ledger st2) (proposal_id 0) "alice" No 20
     = (Err ProposalClosed, gov st2)).
Proof.
  assert (Hf : findProposal (gov st2) (proposal_id 0) = Some prop0)
    by (vm_compute; reflexivity).
  assert (Hv : is_Some (votes prop0 !! "alice")) by (eexists; vm_compute; reflexivity).
  split; [exact Hf|split; [exact Hv|]].
  exact (castVote_repeat_rejected _ _ _ _ _ _ _ Hf Hv).
Defined.

Lemma apply_tx_gov_prefix now s t s' :
  apply_tx now s t = Ok s' -> exists ext, map id (gov s') = map id (gov s) ++ ext.
Proof.
  unfold apply_tx. destruct (tx_index s !! tx_hash t); [congruence|].
  destruct (kind t) as [|pl|pid c|pid].
  - destruct (applyTransfer _ _ _ _) as [[[]|e] L'] eqn:E; [|congruence].
    intros [= <-]. exists []. by rewrite app_nil_r.
  - destruct (createProposal _ _ _) as [[pid|e] g'] eqn:E; [|congruence].
    intros [= <-]. apply createProposal_ok in E as (_ & ->).
    simpl. rewrite map_app. eauto.
  - destruct (castVote _ _ _ _ _ _) as [[[]|e] g'] eqn:E; [|congruence].
    intros [= <-]. apply castVote_ok in E. simpl. rewrite E.
    exists []. by rewrite app_nil_r.
  - destruct (applyTreasuryTransfer _ _ _ _ _ _ _) as [[[]|e] [T' L']] eqn:E;
      [|congruence].
    intros [= <-]. exists []. by rewrite app_nil_r.
Qed.

Lemma apply_txs_gov_prefix now s ts s' :
  apply_txs now s ts = Ok s' -> exists ext, map id (gov s') = map id (gov s) ++ ext.
Proof.
  revert s. induction ts as [|t ts IH]; simpl; intros s.
  - intros [= <-]. exists []. by rewrite app_nil_r.
  - destruct (apply_tx now s t) as [s1|e] eqn:E; simpl; [|congruence].
    intros (ext2 & H2)%IH. apply apply_tx_gov_prefix in E as (ext1 & H1).
    exists (ext1 ++ ext2). by rewrite H2, H1, app_assoc.
Qed.

(** C7: listProposals lists every stored proposal in creation order; a
    successful createProposal returning [pid] appends to that list a
    proposal with id [pid] whose title, description, proposal_type,
    voting_type, duration and threshold are the ones submitted; and no step
    of the node removes or reorders proposals, it only appends new ones. *)
Theorem listProposals_creation_order :
  (forall (g : proposals) now, map id (listProposals g now) = map id g) /\
  (forall (g g' : proposals) pl now pid now',
     createProposal g pl now = (Ok pid, g') ->
     exists p, listProposals g' now' = listProposals g now' ++ [p] /\
       id p = pid /\ title p = pl_title pl /\ description p = pl_description pl /\
       proposal_type p = pl_proposal_type pl /\ voting_type p = pl_voting_type pl /\
       duration p = pl_duration pl /\ threshold p = pl_threshold pl) /\
  (forall st st', step st st' ->
     exists ext, map id (gov st') = map id (gov st) ++ ext).
Proof.
  split; [|split].
  - intros g now. unfold listProposals. rewrite map_map. done.
  - intros g g' pl now pid now' H.
    apply createProposal_ok in H as (-> & ->).
    unfold listProposals. rewrite map_app. simpl.
    eexists. split; [reflexivity|]. simpl. auto 10.
  - intros st st' Hs.
    destruct Hs as [st b st' Hap|st pl now pid g' Hc|st pid voter c now g' Hv].
    + apply appendBlock_ok in Hap as (_ & _ & _ & s' & Happ & ->).
      by apply apply_txs_gov_prefix in Happ.
    + apply createProposal_ok in Hc as (_ & ->). simpl. rewrite map_app. eauto.
    + apply castVote_ok in Hv. simpl. rewrite Hv. exists []. by rewrite app_nil_r.
Qed.

Lemma apply_tx_treasury_kind now s t s' :
  apply_tx now s t = Ok s' -> treasury s' <> treasury s ->
  exists pid, kind t = TkTreasuryTransfer pid.
Proof.
  unfold apply_tx. destruct (tx_index s !! tx_hash t); [congruence|].
  destruct (kind t) as [|pl|pid c|pid]; [..|eauto]; repeat case_match;
    try congruence; intros [= <-]; simpl; congruence.
Qed.

Lemma apply_txs_treasury_kind now s ts s' :
  apply_txs now s ts = Ok s' -> treasury s' <> treasury s ->
  exists t pid, t ∈ ts /\ kind t = TkTreasuryTransfer pid.
Proof.
  revert s. induction ts as [|t ts IH]; simpl; intros s.
  - intros [= <-]. done.
  - destruct (apply_tx now s t) as [s1|e] eqn:E; simpl; [|congruence].
    intros Hs Hne. destruct (decide (treasury s1 = treasury s)) as [Heq|Hne1].
    + destruct (IH s1 Hs) as (t' & pid & Hin & Hk); [congruence|].
      exists t', pid. split; [by right|done].
    + apply apply_tx_treasury_kind in E as [pid Hk]; [|done].
      exists t, pid. split; [by left|done].
Qed.

Lemma apply_tx_treasury_trace now s t s' :
  ledger_ok s -> apply_tx now s t = Ok s' -> treasury s' <> treasury s ->
  exists pid p, kind t = TkTreasuryTransfer pid /\
    filter (fun q => id q = pid) (gov s) = [p] /\
    evaluateStatus p now = Passed /\
    0 < amount t /\ treasury s' = treasury s - amount t.
Proof.
  intros (_ & _ & Hg) Ht Hne.
  destruct (apply_tx_treasury_kind _ _ _ _ Ht Hne) as [pid Hk].
  revert Ht. unfold apply_tx. destruct (tx_index s !! tx_hash t); [congruence|].
  rewrite Hk.
  destruct (applyTreasuryTransfer _ _ _ _ _ _ _) as [[[]|e] [T' L']] eqn:E;
    [|congruence].
  intros [= <-]. simpl in E.
  apply applyTreasuryTransfer_ok in E as (p & Hf & Hp & Ha & _ & -> & _).
  exists pid, p. repeat split; try done.
  by apply findProposal_unique; [apply gov_ok_NoDup|].
Qed.

(** C9: in every reachable state the Treasury balance is non-negative and
    the Treasury query succeeds with it; a step changes the Treasury only
    by appending a block that carries a treasury_transfer transaction; and
    a transaction that changes the Treasury is a treasury_transfer of a
    positive amount, debited from it, naming a proposal that is the only
    one with its id and whose status is passed at the block's time. *)
Theorem treasury_nonneg_and_traced :
  (forall st, reachable st ->
     0 <= treasury st /\ treasuryBalance st = Ok (treasury st)) /\
  (forall st st', step st st' -> treasury st' <> treasury st ->
     exists b, appendBlock st b = (Ok tt, st') /\
       exists t pid, t ∈ transactions b /\ kind t = TkTreasuryTransfer pid) /\
  (forall now s t s', ledger_ok s -> apply_tx now s t = Ok s' ->
     treasury s' <> treasury s ->
     exists pid p, kind t = TkTreasuryTransfer pid /\
       filter (fun q => id q = pid) (gov s) = [p] /\
       evaluateStatus p now = Passed /\
       0 < amount t /\ treasury s' = treasury s - amount t).
Proof.
  split; [|split].
  - intros st Hr. destruct (reachable_inv st Hr) as (_ & _ & _ & HT & _).
    split; [done|reflexivity].
  - intros st st' Hs Hne.
    destruct Hs as [st b st' Hap|st pl now pid g' _|st pid voter c now g' _];
      [|by destruct Hne..].
    exists b. split; [done|].
    apply appendBlock_ok in Hap as (_ & _ & _ & s' & Happ & ->).
    by eapply apply_txs_treasury_kind.
  - apply apply_tx_treasury_trace.
Qed.

(** C10: in every reachable state, a well-formed digest that is the digest
    of no transaction of any stored block is NotFound for the transaction
    lookup, never InvalidFormat. *)
Theorem getTransaction_absent_notfound st s :
  reachable st -> is_digest s = true ->
  Forall (fun b => Forall (fun t => tx_hash t <> s) (transactions b)) (chain st) ->
  getTransaction st s = Err NotFound.
Proof.
  intros Hr Hd Hnone.
  destruct (reachable_inv st Hr) as (_ & (_ & _ & Htx) & _).
  unfold getTransaction. rewrite Hd.
  destruct (tx_index st !! s) as [t|] eqn:E; [|done].
  apply Htx in E as (Hh & b & Hb & Ht).
  rewrite Forall_forall in Hnone. specialize (Hnone b Hb).
  rewrite Forall_forall in Hnone. by destruct (Hnone t Ht).
Qed.

Lemma getTransaction_absent_notfound_witness :
  is_digest (hex64 "f") = true /\
  Forall (fun b => Forall (fun t => tx_hash t <> hex64 "f") (transactions b)) (chain st3) /\
  getTransaction st3 (hex64 "f") = Err NotFound.
Proof.
  assert (Hd : is_digest (hex64 "f") = true) by (vm_compute; reflexivity).
  assert (Hn : Forall (fun b => Forall (fun t => tx_hash t <> hex64 "f")
                                       (transactions b)) (chain st3))
    by (apply (bool_decide_unpack _); vm_compute; reflexivity).
  split; [exact Hd|split; [exact Hn|]].
  exact (getTransaction_absent_notfound st3 (hex64 "f") reachable_st3 Hd Hn).
Defined.

End Claims.

Module HttpFacts.
Import TokenLedger Governance Chain Query Invariants LedgerFacts ChainFacts
  ReachFacts Http Completeness.

(** ** Strings as lists of characters *)

Lemma length_list_ascii s : String.length s = length (list_ascii_of_string s).
Proof. induction s as [|c s IH]; simpl; auto. Qed.

Lemma string_of_list_ascii_app l l' :
  string_of_list_ascii (l ++ l') = string_of_list_ascii l +:+ string_of_list_ascii l'.
Proof. induction l as [|c l IH]; simpl; [done|]. by rewrite IH. Qed.

Lemma list_ascii_of_string_app s s' :
  list_ascii_of_string (s +:+ s') = list_ascii_of_string s ++ list_ascii_of_string s'.
Proof. induction s as [|c s IH]; simpl; [done|]. by rewrite IH. Qed.

Lemma string_of_list_ascii_snoc l c :
  string_of_list_ascii (l ++ [c]) = string_of_list_ascii l +:+ String c EmptyString.
Proof. apply string_of_list_ascii_app. Qed.

(** ** The hash mutation of TC001 *)

Lemma mutate_hash_Some s m :
  mutate_hash s = Some m ->
  exists l c, list_ascii_of_string s = l ++ [c] /\
    m = string_of_list_ascii (l ++ [if Ascii.eqb c "0"%char then "1"%char else "0"%char]).
Proof.
  unfold mutate_hash.
  destruct (rev (list_ascii_of_string s)) as [|c rest] eqn:E; [discriminate|].
  intros [= <-]. exists (rev rest), c. split; [|done].
  rewrite <- (rev_involutive (list_ascii_of_string s)), E. done.
Qed.

Lemma mutate_hash_snoc l c :
  mutate_hash (string_of_list_ascii (l ++ [c])) =
  Some (string_of_list_ascii (l ++ [if Ascii.eqb c "0"%char then "1"%char else "0"%char])).
Proof.
  unfold mutate_hash. rewrite list_ascii_of_string_of_list_ascii, rev_app_distr.
  simpl. by rewrite rev_involutive.
Qed.

Lemma mutate_hash_None s : mutate_hash s = None <-> s = "".
Proof.
  unfold mutate_hash. split.
  - destruct (rev (list_ascii_of_string s)) as [|c rest] eqn:E; [|discriminate].
    intros _. apply (f_equal (@rev _)) in E. rewrite rev_involutive in E.
    rewrite <- (string_of_list_ascii_of_string s), E. done.
  - intros ->. done.
Qed.

Lemma mutate_hash_is_digest s m :
  is_digest s = true -> mutate_hash s = Some m -> is_digest m = true.
Proof.
  intros Hd Hm. apply mutate_hash_Some in Hm as (l & c & Hs & ->).
  unfold is_digest in *. rewrite length_list_ascii in *.
  rewrite list_ascii_of_string_of_list_ascii. rewrite Hs in Hd.
  apply andb_true_iff in Hd as [Hl Hh]. rewrite length_app in Hl |- *.
  cbn [length] in Hl |- *. rewrite forallb_app in Hh |- *. apply andb_true_iff in Hh as [Hh _].
  rewrite Hl, Hh. by destruct (Ascii.eqb c "0"%char).
Qed.

(** ** The block hash extraction of TC001 *)

Lemma first_str_key_sound d keys h :
  first_str_key d keys = Some h -> exists k, k ∈ keys /\ py_get d k = Some (JStr h).
Proof.
  induction keys as [|k ks IH]; simpl; [discriminate|].
  destruct (py_get d k) as [[]|] eqn:E; intros H;
    try (destruct (IH H) as (k' & ? & ?); exists k'; split; [by right|done]).
  injection H as <-. exists k. split; [left|done].
Qed.

Lemma first_long_str_sound vs h :
  first_long_str vs = Some h -> (20 <= String.length h)%nat /\ JStr h ∈ vs.
Proof.
  induction vs as [|v vs IH]; [discriminate|].
  destruct v; cbn [first_long_str]; try (intros H; destruct (IH H); split; [done|by right]).
  destruct (20 <=? String.length s)%nat eqn:E; intros H.
  - injection H as <-. apply Nat.leb_le in E. split; [done|left].
  - destruct (IH H). split; [done|by right].
Qed.

Lemma truthy_nonempty h : h <> "" -> truthy (Some h) = true.
Proof. intros H. unfold truthy. apply negb_true_iff, String.eqb_neq, H. Qed.

Lemma extract_block_json b d :
  hash b <> "" -> block_json b = JObj d -> extract_block_hash d = Some (hash b).
Proof.
  intros Hne Hd. unfold block_json in Hd. injection Hd as <-.
  unfold extract_block_hash. cbn [first_str_key py_get String.eqb Ascii.eqb Bool.eqb andb].
  by rewrite truthy_nonempty.
Qed.

(** ** Completeness of the Hash Index *)

Lemma apply_txs_keeps now s ts s' h v :
  apply_txs now s ts = Ok s' -> tx_index s !! h = Some v -> tx_index s' !! h = Some v.
Proof.
  revert s. induction ts as [|t ts IH]; simpl; intros s.
  - by intros [= <-].
  - destruct (apply_tx now s t) as [s1|e] eqn:E; simpl; [|congruence].
    intros H Hv. apply (IH s1 H).
    apply apply_tx_frame in E as (_ & _ & _ & -> & Hn).
    rewrite lookup_insert_ne; [done|]. intros <-. congruence.
Qed.

Lemma apply_txs_covers now s ts s' :
  apply_txs now s ts = Ok s' -> forall t, t ∈ ts -> tx_index s' !! tx_hash t = Some t.
Proof.
  revert s. induction ts as [|t ts IH]; simpl; intros s.
  - intros _ t Ht. by apply elem_of_nil in Ht.
  - destruct (apply_tx now s t) as [s1|e] eqn:E; simpl; [|congruence].
    intros H t' Ht'. apply elem_of_cons in Ht' as [->|Ht'].
    + eapply apply_txs_keeps; [exact H|].
      apply apply_tx_frame in E as (_ & _ & _ & -> & _).
      by rewrite lookup_insert_eq.
    + by eapply IH.
Qed.

Lemma index_complete_reachable st : reachable st -> index_complete st.
Proof.
  induction 1 as [alloc t0 Ha Ht|st st' _ [IHb IHt] Hstep].
  - split; [intros b Hb|intros b t Hb]; cbn [chain init_state] in Hb;
      by apply elem_of_nil in Hb.
  - destruct Hstep as [st b st' Hap|st pl now pid g' Hc|st pid voter c now g' Hv].
    + apply appendBlock_ok in Hap as (_ & _ & Hnone & s' & Happ & ->).
      pose proof (apply_txs_frame _ _ _ _ Happ) as (Hc & Hbh & _).
      split; cbn [chain by_hash tx_index]; rewrite Hc.
      * intros b0 Hb0. apply elem_of_app in Hb0 as [Hb0|Hb0].
        -- rewrite Hbh. pose proof (IHb b0 Hb0) as E.
           rewrite lookup_insert_ne; [done|]. intros Heq. congruence.
        -- apply list_elem_of_singleton in Hb0 as ->. by rewrite lookup_insert_eq.
      * intros b0 t Hb0 Ht. apply elem_of_app in Hb0 as [Hb0|Hb0].
        -- eapply apply_txs_keeps; [exact Happ|]. by apply IHt with b0.
        -- apply list_elem_of_singleton in Hb0 as ->.
           by eapply apply_txs_covers.
    + split; [exact IHb|exact IHt].
    + split; [exact IHb|exact IHt].
Qed.

End HttpFacts.

Module HttpEndpoints.
Import TokenLedger Governance Chain Query Invariants LedgerFacts ChainFacts
  ReachFacts Http Completeness HttpFacts.

Lemma block_endpoint_digest st h :
  is_digest h = true -> block_endpoint st h = respond block_json (opt_result (by_hash st !! h)).
Proof. intros Hd. unfold block_endpoint, getBlock, parse_hashorid. by rewrite Hd. Qed.

Lemma block_endpoint_zero st :
  index_ok st -> block_endpoint st "0" = respond block_json (opt_result (chain st !! 0%nat)).
Proof.
  intros (Hhe & _). unfold block_endpoint, getBlock.
  change (parse_hashorid "0") with (Some (ByHeight 0%N)). cbv iota.
  by rewrite Hhe.
Qed.

Lemma block_endpoint_far st :
  index_ok st -> (N.of_nat (length (chain st)) <= 9999999)%N ->
  block_endpoint st "9999999" = error_response NotFound.
Proof.
  intros (Hhe & _) Hlen. unfold block_endpoint, getBlock.
  change (parse_hashorid "9999999") with (Some (ByHeight 9999999%N)). cbv iota.
  rewrite Hhe, lookup_ge_None_2; [done|lia].
Qed.

Lemma block_endpoint_malformed st :
  block_endpoint st "!!!invalid_hash@@@" = error_response InvalidFormat.
Proof. reflexivity. Qed.

Lemma tx_endpoint_digest st h :
  is_digest h = true -> tx_endpoint st h = respond tx_json (opt_result (tx_index st !! h)).
Proof. intros Hd. unfold tx_endpoint, getTransaction. by rewrite Hd. Qed.

Lemma forallb_firstn {A} (f : A -> bool) n l :
  forallb f l = true -> forallb f (firstn n l) = true.
Proof.
  revert n. induction l as [|x l IH]; intros [|n]; simpl; try done.
  intros [Hx Hl]%andb_true_iff. rewrite Hx. by apply IH.
Qed.

Lemma proposals_json_ok (l : list Proposal) :
  forallb tc004_item_ok (map proposal_json l) = true.
Proof. induction l as [|p l IH]; simpl; [done|]. by rewrite IH. Qed.

End HttpEndpoints.

Module Extras.
Import TokenLedger Governance Chain Query Invariants LedgerFacts ChainFacts
  ReachFacts Scenario Scenario_facts Http Completeness HttpFacts HttpEndpoints.

(** X1 (TC001 line 69).  The "non-existent hash" the test builds keeps
    every character of the hash but the last, which it replaces by a
    different one, always "0" or "1". *)
Theorem mutate_hash_last_char s m :
  mutate_hash s = Some m ->
  exists p c c', s = p +:+ String c EmptyString /\ m = p +:+ String c' EmptyString /\
    c <> c' /\ (c' = "0"%char \/ c' = "1"%char).
Proof.
  intros Hm. apply mutate_hash_Some in Hm as (l & c & Hs & ->).
  exists (string_of_list_ascii l), c,
    (if Ascii.eqb c "0"%char then "1"%char else "0"%char).
  split; [|split; [apply string_of_list_ascii_snoc|]].
  - by rewrite <- string_of_list_ascii_snoc, <- Hs, string_of_list_ascii_of_string.
  - destruct (Ascii.eqb_spec c "0"%char) as [->|Hne]; split; auto; congruence.
Qed.

Lemma mutate_hash_last_char_witness :
  mutate_hash "abc0" = Some "abc1" /\
  exists p c c', "abc0" = p +:+ String c EmptyString /\
    "abc1" = p +:+ String c' EmptyString /\ c <> c' /\
    (c' = "0"%char \/ c' = "1"%char).
Proof.
  assert (H : mutate_hash "abc0" = Some "abc1") by reflexivity.
  split; [exact H|exact (mutate_hash_last_char "abc0" "abc1" H)].
Defined.


(** X3 (TC001 lines 69-71).  Mutating a well-formed digest gives a
    well-formed digest, so the last request of the test is a lookup by
    digest, not a malformed identifier. *)
Theorem mutate_hash_keeps_digest s m :
  is_digest s = true -> mutate_hash s = Some m -> is_digest m = true.
Proof. apply mutate_hash_is_digest. Qed.

Lemma mutate_hash_keeps_digest_witness :
  let m := string_of_list_ascii (repeat "0"%char 63 ++ ["1"%char]) in
  is_digest (hex64 "0") = true /\ mutate_hash (hex64 "0") = Some m /\
  is_digest m = true.
Proof.
  intros m.
  assert (Hd : is_digest (hex64 "0") = true) by (vm_compute; reflexivity).
  assert (Hm : mutate_hash (hex64 "0") = Some m) by (vm_compute; reflexivity).
  split; [exact Hd|split; [exact Hm|]].
  exact (mutate_hash_keeps_digest (hex64 "0") m Hd Hm).
Defined.

(** X4 (TC001 line 69).  Mutating twice gives the hash back exactly when
    its last character is "0" or "1". *)
Theorem mutate_hash_twice s m :
  mutate_hash s = Some m ->
  (mutate_hash m = Some s <-> exists p, s = p +:+ "0" \/ s = p +:+ "1").
Proof.
  intros Hm. apply mutate_hash_Some in Hm as (l & c & Hs & ->).
  rewrite mutate_hash_snoc.
  assert (Es : s = string_of_list_ascii (l ++ [c]))
    by (by rewrite <- Hs, string_of_list_ascii_of_string).
  split.
  - intros [= Heq]. exists (string_of_list_ascii l).
    rewrite Es, string_of_list_ascii_snoc.
    apply (f_equal list_ascii_of_string) in Heq.
    rewrite list_ascii_of_string_of_list_ascii, Hs in Heq.
    apply app_inj_tail in Heq as [_ Heq].
    destruct (Ascii.eqb_spec c "0"%char) as [->|Hne]; [by left|].
    rewrite <- Heq. by right.
  - intros (p & Hp).
    assert (Hc : c = "0"%char \/ c = "1"%char).
    { destruct Hp as [Hp|Hp]; apply (f_equal list_ascii_of_string) in Hp;
        rewrite list_ascii_of_string_app, Hs in Hp; cbn [list_ascii_of_string] in Hp;
        apply app_inj_tail in Hp as [_ ->]; [left|right]; reflexivity. }
    rewrite Es. destruct Hc as [-> | ->]; reflexivity.
Qed.

Lemma mutate_hash_twice_witness :
  mutate_hash "ab1" = Some "ab0" /\
  (mutate_hash "ab0" = Some "ab1" <-> exists p, "ab1" = p +:+ "0" \/ "ab1" = p +:+ "1").
Proof.
  assert (H : mutate_hash "ab1" = Some "ab0") by reflexivity.
  split; [exact H|exact (mutate_hash_twice "ab1" "ab0" H)].
Defined.

(** X5 (TC001 lines 29-40).  The hash the test extracts from a block is
    the str value of one of the keys "hash", "block_hash", "id", or else a
    str value of the block of at least 20 characters. *)
Theorem extract_block_hash_sound d h :
  extract_block_hash d = Some h ->
  (exists k, k ∈ ["hash"; "block_hash"; "id"] /\ py_get d k = Some (JStr h)) \/
  ((20 <= String.length h)%nat /\ JStr h ∈ map snd d).
Proof.
  unfold extract_block_hash.
  destruct (first_str_key d ["hash"; "block_hash"; "id"]) as [h0|] eqn:E.
  - destruct (truthy (Some h0)).
    + intros [= <-]. left. by apply first_str_key_sound.
    + destruct (first_long_str (map snd d)) as [v|] eqn:Ev.
      * intros [= <-]. right. by apply first_long_str_sound.
      * intros [= <-]. left. by apply first_str_key_sound.
  - destruct (truthy None); [discriminate|].
    destruct (first_long_str (map snd d)) as [v|] eqn:Ev; [|discriminate].
    intros [= <-]. right. by apply first_long_str_sound.
Qed.

Lemma extract_block_hash_sound_witness :
  let d := [("height", JInt 0); ("hash", JStr ""); ("parent", JStr (hex64 "7"))] in
  extract_block_hash d = Some (hex64 "7") /\
  ((exists k, k ∈ ["hash"; "block_hash"; "id"] /\ py_get d k = Some (JStr (hex64 "7"))) \/
   ((20 <= String.length (hex64 "7"))%nat /\ JStr (hex64 "7") ∈ map snd d)).
Proof.
  intros d.
  assert (H : extract_block_hash d = Some (hex64 "7")) by (vm_compute; reflexivity).
  split; [exact H|exact (extract_block_hash_sound d (hex64 "7") H)].
Defined.

(** X6 (TC001 lines 29-34 on a served block).  From the JSON object of a
    block with a non-empty digest the test extracts exactly that digest. *)
Theorem extract_block_hash_of_block b :
  hash b <> "" ->
  match block_json b with JObj d => extract_block_hash d | _ => None end = Some (hash b).
Proof.
  intros Hne. assert (Hd : exists d, block_json b = JObj d) by (eexists; reflexivity).
  destruct Hd as [d Hd]. rewrite Hd. by apply extract_block_json.
Qed.

Lemma extract_block_hash_of_block_witness :
  hash b0 <> "" /\
  match block_json b0 with JObj d => extract_block_hash d | _ => None end = Some (hash b0).
Proof.
  assert (H : hash b0 <> "") by (vm_compute; discriminate).
  split; [exact H|exact (extract_block_hash_of_block b0 H)].
Defined.



(** X8 (TC001 lines 9-71 against [GET /block/{hashorid}]).  On a reachable
    node whose genesis block has a well-formed digest and which holds at
    most 9999999 blocks, the test passes exactly when no stored block has
    the mutated genesis digest. *)
Theorem tc001_block_endpoint st g :
  reachable st -> chain st !! 0%nat = Some g -> is_digest (hash g) = true ->
  (N.of_nat (length (chain st)) <= 9999999)%N ->
  tc001 (block_endpoint st) = true <->
  (forall b, b ∈ chain st -> mutate_hash (hash g) <> Some (hash b)).
Proof.
  intros Hr Hg Hd Hlen.
  destruct (reachable_inv st Hr) as (_ & Hidx & _).
  destruct (index_complete_reachable st Hr) as [Hbc _].
  pose proof Hidx as (_ & Hha & _).
  assert (Hne : hash g <> "") by (intros E; rewrite E in Hd; discriminate).
  destruct (mutate_hash (hash g)) as [m|] eqn:Hm;
    [|apply mutate_hash_None in Hm; contradiction].
  pose proof (mutate_hash_is_digest _ _ Hd Hm) as Hmd.
  assert (Hobj : exists d, block_json g = JObj d) by (eexists; reflexivity).
  destruct Hobj as [d Hobj].
  unfold tc001. cbv zeta.
  rewrite (block_endpoint_zero st Hidx), Hg. cbn [respond opt_result status body].
  rewrite Hobj. cbv iota beta.
  rewrite (extract_block_json g d Hne Hobj), (truthy_nonempty _ Hne). cbv iota beta.
  rewrite (block_endpoint_digest st (hash g) Hd).
  rewrite (Hbc g (list_elem_of_lookup_2 _ _ _ Hg)).
  rewrite Hm, (block_endpoint_digest st m Hmd).
  rewrite block_endpoint_malformed, (block_endpoint_far st Hidx Hlen).
  cbn [respond opt_result status body]. rewrite Hobj.
  destruct (by_hash st !! m) as [b|] eqn:Eb; cbn.
  - split; [discriminate|]. intros Hall.
    apply Hha in Eb as [Hh Hb]. destruct (Hall b Hb). by rewrite Hh.
  - split; [intros _|done]. intros b Hb [= Hmb].
    pose proof (Hbc b Hb) as E. rewrite <- Hmb, Eb in E. discriminate.
Qed.

Lemma tc001_block_endpoint_witness :
  chain st3 !! 0%nat = Some b0 /\ is_digest (hash b0) = true /\
  (N.of_nat (length (chain st3)) <= 9999999)%N /\
  (tc001 (block_endpoint st3) = true <->
   (forall b, b ∈ chain st3 -> mutate_hash (hash b0) <> Some (hash b))).
Proof.
  assert (H0 : chain st3 !! 0%nat = Some b0) by (vm_compute; reflexivity).
  assert (Hd : is_digest (hash b0) = true) by (vm_compute; reflexivity).
  assert (Hl : (N.of_nat (length (chain st3)) <= 9999999)%N)
    by (vm_compute; discriminate).
  split; [exact H0|split; [exact Hd|split; [exact Hl|]]].
  exact (tc001_block_endpoint st3 b0 reachable_st3 H0 Hd Hl).
Defined.



(** X10 (TC002 lines 6-43 against [GET /tx/{hash}]).  On a reachable node
    the test passes exactly when no transaction of a stored block has the
    digest "f" * 64; the answer for "a" * 64, found or not, never fails it. *)
Theorem tc002_tx_endpoint st :
  reachable st ->
  tc002 (tx_endpoint st) = true <->
  (forall b t, b ∈ chain st -> t ∈ transactions b ->
     tx_hash t <> string_of_list_ascii (repeat "f"%char 64)).
Proof.
  intros Hr.
  destruct (reachable_inv st Hr) as (_ & (_ & _ & Htx) & _).
  destruct (index_complete_reachable st Hr) as [_ Htc].
  unfold tc002. cbv zeta.
  rewrite (tx_endpoint_digest st (string_of_list_ascii (repeat "a"%char 64)) eq_refl).
  rewrite (tx_endpoint_digest st (string_of_list_ascii (repeat "f"%char 64)) eq_refl).
  change (tx_endpoint st "!!!invalidhash@@@") with (error_response InvalidFormat).
  assert (Hf : (tx_index st !! string_of_list_ascii (repeat "f"%char 64) = None) <->
    (forall b t, b ∈ chain st -> t ∈ transactions b ->
       tx_hash t <> string_of_list_ascii (repeat "f"%char 64))).
  { split.
    - intros Hn b t Hb Ht Heq. pose proof (Htc b t Hb Ht) as E.
      rewrite Heq, Hn in E. discriminate.
    - intros Hall. destruct (tx_index st !! _) as [t|] eqn:E; [|done].
      apply Htx in E as (Hh & b & Hb & Ht). by destruct (Hall b t Hb Ht). }
  rewrite <- Hf.
  destruct (tx_index st !! string_of_list_ascii (repeat "a"%char 64)) as [ta|];
    destruct (tx_index st !! string_of_list_ascii (repeat "f"%char 64)) as [tf|];
    cbn; split; done.
Qed.

Lemma tc002_tx_endpoint_witness :
  tc002 (tx_endpoint st3) = true <->
  (forall b t, b ∈ chain st3 -> t ∈ transactions b ->
     tx_hash t <> string_of_list_ascii (repeat "f"%char 64)).
Proof. exact (tc002_tx_endpoint st3 reachable_st3). Defined.

(** X11 (TC004 lines 11-91 against [GET /dao/proposals] and
    [POST /dao/proposal]).  The test passes from every proposals table and
    at all request times: the listed items have the checked shape, and on an
    empty table the created proposal is listed with the sent fields. *)
Theorem tc004_governance (g : proposals) t0 t1 t2 :
  tc004 proposals_endpoint create_endpoint g t0 t1 t2 = true.
Proof.
  unfold tc004. destruct g as [|p ps].
  - reflexivity.
  - unfold proposals_endpoint. cbn [status body].
    pose proof (proposals_json_ok (listProposals (p :: ps) t0)) as Hok.
    destruct (map proposal_json (listProposals (p :: ps) t0)) as [|j js] eqn:E;
      [discriminate|].
    cbn iota beta. rewrite (forallb_firstn _ 5 _ Hok). reflexivity.
Qed.

(** X12 (TC007 lines 9-27 against [GET /dao/treasury]).  The test passes on
    every reachable node. *)
Theorem tc007_treasury st : reachable st -> tc007 (treasury_endpoint st) = true.
Proof.
  intros Hr. destruct (reachable_inv st Hr) as (_ & _ & (_ & HT & _)).
  unfold tc007, treasury_endpoint, treasuryBalance. cbn. by apply Z.leb_le.
Qed.

Lemma tc007_treasury_witness : tc007 (treasury_endpoint st3) = true.
Proof. exact (tc007_treasury st3 reachable_st3). Defined.



End Extras.
